(** * A shallow embedding of [sources/game.c]

    The fractal-tree demo is a thin driver over raylib: [StartGame] opens the
    window and sets the initial parameters, [RunGame] loads the bloom shader
    and the off-screen target and runs the frame loop, [InputGame] polls the
    keyboard once per frame.

    The C functions mutate the object behind [s_game* game] and talk to
    raylib.  Both are made explicit here: a [world] holds the game object,
    the keyboard/timer state raylib will report for the frames to come, and
    the log of the raylib calls issued so far; the C functions become
    computations in a small state monad over [world].  The [while] loop runs
    on fuel; running out of fuel is the only way a computation yields [None].

    C [float] arithmetic is kept behind the interface [FloatOps], so every
    statement about the control flow holds whatever the rounding is.  The
    program's own arithmetic is the instance [binary32_arith]; the instance
    over [Q] runs the same program without rounding and serves for sample
    runs. *)

From Stdlib Require Import ZArith QArith Qround Lqa String Ascii DecimalString List Bool Lia.
From Stdlib Require Import Floats.SpecFloat.
Import ListNotations.
Local Open Scope Z_scope.

(** ** Arithmetic of C [float] *)

(** [lit q] is the [float] denoted by the literal (or converted integer) [q].
    The two laws say that stepping [0.0f] down or up by one is exact. *)
Class FloatOps (F : Type) : Type := {
  lit : Q -> F;
  fadd : F -> F -> F;
  fsub : F -> F -> F;
  fmul : F -> F -> F;
  fsub_0_1 : fsub (lit 0) (lit 1) = lit (-1);
  fadd_0_1 : fadd (lit 0) (lit 1) = lit 1
}.

(** Exact arithmetic: a literal denotes itself. *)
#[export] Instance exact_arith : FloatOps Q := {|
  lit := fun q => q;
  fadd := Qplus;
  fsub := Qminus;
  fmul := Qmult;
  fsub_0_1 := eq_refl;
  fadd_0_1 := eq_refl
|}.

(** IEEE 754 binary32, the [float] of the platforms raylib runs on:
    24 bits of precision, exponents below 128, round to nearest even. *)
Definition b32_of_Z (z : Z) : spec_float := binary_normalize 24 128 z 0 false.

Definition b32_lit (q : Q) : spec_float :=
  SFdiv 24 128 (b32_of_Z (Qnum q)) (b32_of_Z (Zpos (Qden q))).

#[export] Instance binary32_arith : FloatOps spec_float := {|
  lit := b32_lit;
  fadd := SFadd 24 128;
  fsub := SFsub 24 128;
  fmul := SFmul 24 128;
  fsub_0_1 := eq_refl;
  fadd_0_1 := eq_refl
|}.


(** ** raylib data *)

(** The six keys [InputGame] polls, out of raylib's [KeyboardKey]. *)
Inductive KeyboardKey : Set :=
| KEY_D | KEY_A | KEY_S | KEY_W | KEY_UP | KEY_DOWN.

(** [struct { x; y; }]: raylib's [Vector2] at [A := float]. *)
Record Vec2 (A : Type) : Type := mkVec2 { x : A; y : A }.
Arguments mkVec2 {A} _ _.
Arguments x {A} _.
Arguments y {A} _.

Record Color : Set := mkColor { col_r : Z; col_g : Z; col_b : Z; col_a : Z }.
Definition SKYBLUE : Color := mkColor 102 191 255 255.
Definition WHITE : Color := mkColor 255 255 255 255.

(** GPU handles.  Only the fields the program reads are kept. *)
Record Shader : Set := mkShader { shader_id : Z }.
Record Texture2D : Set := mkTexture { tex_id : Z; tex_width : Z; tex_height : Z }.
Record RenderTexture2D : Set := mkRenderTexture { rt_id : Z; texture : Texture2D }.

(** The value of [TextFormat(format, arg)], kept symbolic: raylib formats it. *)
Inductive text : Set :=
| TextFormat (format : string) (arg : Z).

(** What raylib makes of it: [TextFormat] hands the format and the argument
    to vsnprintf.  With one [int] argument, "%i" and "%d" print it in
    decimal, "%%" prints a percent sign and every other character is copied
    (other conversions are not modelled and copied too). *)
Fixpoint format_int (format : string) (arg : Z) : string :=
  match format with
  | EmptyString => EmptyString
  | String c rest =>
      if Ascii.eqb c "%" then
        match rest with
        | EmptyString => String c EmptyString
        | String d rest' =>
            if Ascii.eqb d "i" || Ascii.eqb d "d" then
              NilZero.string_of_int (Z.to_int arg) ++ format_int rest' arg
            else if Ascii.eqb d "%" then String "%" (format_int rest' arg)
            else String c (String d (format_int rest' arg))
        end
      else String c (format_int rest arg)
  end.

Definition text_value (t : text) : string :=
  match t with
  | TextFormat format arg => format_int format arg
  end.

(** Whether a percent sign occurs in [s]. *)
Fixpoint has_percent (s : string) : bool :=
  match s with
  | EmptyString => false
  | String c rest => Ascii.eqb c "%" || has_percent rest
  end.

Section Game.

Context {F : Type} {FO : FloatOps F}.

(** The build defines the macro [ASSETS_PATH]; it is not part of the sources. *)
Variable ASSETS_PATH : string.

Definition Vector2 : Type := Vec2 F.

(** raymath.h *)
Definition Vector2Add (v1 v2 : Vector2) : Vector2 :=
  mkVec2 (fadd (x v1) (x v2)) (fadd (y v1) (y v2)).

Definition Vector2Scale (v : Vector2) (scale : F) : Vector2 :=
  mkVec2 (fmul (x v) scale) (fmul (y v) scale).

Record Rectangle : Type := mkRectangle {
  rec_x : F; rec_y : F; rec_width : F; rec_height : F }.

Record Camera2D : Type := mkCamera2D {
  offset : Vector2; target : Vector2; rotation : F; zoom : F }.

(** Modelled from the spec: the struct [s_game] of game.h, which is not among
    the sources: window dimensions (width, height in pixels), window title, a
    2D camera, the branch angle and the starting branch length. *)
Record s_game : Type := mk_game {
  window_size : Vec2 Z;
  title : string;
  camera : Camera2D;
  fractal_tree_angle : F;
  fractal_tree_start_length : F }.

Definition set_camera_offset (v : Vector2) (gm : s_game) : s_game :=
  mk_game (window_size gm) (title gm)
    (mkCamera2D v (target (camera gm)) (rotation (camera gm)) (zoom (camera gm)))
    (fractal_tree_angle gm) (fractal_tree_start_length gm).

Definition set_camera_zoom (z : F) (gm : s_game) : s_game :=
  mk_game (window_size gm) (title gm)
    (mkCamera2D (offset (camera gm)) (target (camera gm)) (rotation (camera gm)) z)
    (fractal_tree_angle gm) (fractal_tree_start_length gm).

Definition set_fractal_tree_angle (v : F) (gm : s_game) : s_game :=
  mk_game (window_size gm) (title gm) (camera gm) v (fractal_tree_start_length gm).

Definition set_fractal_tree_start_length (v : F) (gm : s_game) : s_game :=
  mk_game (window_size gm) (title gm) (camera gm) (fractal_tree_angle gm) v.

(** ** The calls the program can issue *)

(** One constructor per raylib (or tree.h) call with an effect, carrying its
    arguments.  [E_UnloadShader] and [E_UnloadRenderTexture] are raylib's
    release calls for the two GPU objects. *)
Inductive call : Type :=
| E_InitWindow (width height : Z) (title : string)
| E_SetTargetFPS (fps : Z)
| E_LoadShader (vsFileName : option text) (fsFileName : text)
| E_LoadRenderTexture (width height : Z)
| E_BeginTextureMode (target : RenderTexture2D)
| E_BeginMode2D (camera : Camera2D)
| E_ClearBackground (color : Color)
| E_rlPushMatrix
| E_rlTranslatef (tx ty tz : F)
| E_RecursiveTreeDraw (length start_length angle : F)
| E_rlPopMatrix
| E_EndMode2D
| E_EndTextureMode
| E_BeginDrawing
| E_BeginShaderMode (shader : Shader)
| E_DrawTextureRec (tex : Texture2D) (source : Rectangle) (position : Vector2) (tint : Color)
| E_EndShaderMode
| E_EndDrawing
| E_UnloadShader (shader : Shader)
| E_UnloadRenderTexture (target : RenderTexture2D)
| E_CloseWindow.

(** ** The world *)

(** What raylib reports during one frame. *)
Record frame_input : Type := mk_frame {
  key_down : KeyboardKey -> bool;
  frame_time : F }.

(** [frames]: the input of the current frame, then of the frames to come;
    the close request arrives when they are used up.  [next_id]: the next
    free GPU object id.  [log]: the calls issued so far, oldest first. *)
Record world : Type := mk_world {
  game : s_game;
  frames : list frame_input;
  next_id : Z;
  log : list call }.

(** ** The monad *)

Definition M (A : Type) : Type := world -> option (A * world).

Definition ret {A : Type} (v : A) : M A := fun w => Some (v, w).

Definition bind {A B : Type} (m : M A) (k : A -> M B) : M B :=
  fun w => match m w with
           | Some (v, w') => k v w'
           | None => None
           end.

Definition out_of_fuel {A : Type} : M A := fun _ => None.

Notation "v <- m ;; k" := (bind m (fun v => k))
  (at level 61, m at next level, right associativity).
Notation "m ;; k" := (bind m (fun _ => k))
  (at level 61, right associativity).

Definition get_game : M s_game := fun w => Some (game w, w).

Definition modify_game (f : s_game -> s_game) : M unit :=
  fun w => Some (tt, mk_world (f (game w)) (frames w) (next_id w) (log w)).

Definition emit (c : call) : M unit :=
  fun w => Some (tt, mk_world (game w) (frames w) (next_id w) (log w ++ [c])).

(** ** raylib, as the program sees it *)

(** The keyboard and the frame timer, as raylib reports them now. *)
Definition held (w : world) (key : KeyboardKey) : bool :=
  match frames w with
  | fr :: _ => key_down fr key
  | [] => false
  end.

Definition elapsed (w : world) : F :=
  match frames w with
  | fr :: _ => frame_time fr
  | [] => lit 0
  end.

Definition IsKeyDown (key : KeyboardKey) : M bool :=
  fun w => Some (held w key, w).

Definition GetFrameTime : M F :=
  fun w => Some (elapsed w, w).

Definition WindowShouldClose : M bool :=
  fun w => Some (match frames w with
                 | _ :: _ => false
                 | [] => true
                 end, w).

(** [EndDrawing] presents the frame and polls the input of the next one. *)
Definition EndDrawing : M unit :=
  fun w => Some (tt, mk_world (game w) (tl (frames w)) (next_id w) (log w ++ [E_EndDrawing])).

(** The loaders succeed (the program handles nothing else) and hand out the
    next ids; the target's colour buffer has the size asked for. *)
Definition LoadShader (vsFileName : option text) (fsFileName : text) : M Shader :=
  fun w => Some (mkShader (next_id w),
                 mk_world (game w) (frames w) (next_id w + 1)
                          (log w ++ [E_LoadShader vsFileName fsFileName])).

Definition LoadRenderTexture (width height : Z) : M RenderTexture2D :=
  fun w => Some (mkRenderTexture (next_id w) (mkTexture (next_id w + 1) width height),
                 mk_world (game w) (frames w) (next_id w + 2)
                          (log w ++ [E_LoadRenderTexture width height])).

(** ** game.c *)

(** [void InputGame(s_game* game)] *)
Definition InputGame : M unit :=
  let moveVector : Vector2 := mkVec2 (lit 0) (lit 0) in
  d <- IsKeyDown KEY_D ;;
  moveVector <-
    (if d then ret (mkVec2 (fsub (x moveVector) (lit 1)) (y moveVector))
     else
       a <- IsKeyDown KEY_A ;;
       if a then ret (mkVec2 (fadd (x moveVector) (lit 1)) (y moveVector))
       else ret moveVector) ;;
  s <- IsKeyDown KEY_S ;;
  moveVector <-
    (if s then ret (mkVec2 (x moveVector) (fsub (y moveVector) (lit 1)))
     else
       w <- IsKeyDown KEY_W ;;
       if w then ret (mkVec2 (x moveVector) (fadd (y moveVector) (lit 1)))
       else ret moveVector) ;;
  let cameraSpeed := lit 10 in
  dt <- GetFrameTime ;;
  let _ := Vector2Scale moveVector (fmul cameraSpeed dt) in
  modify_game (fun gm => set_camera_offset (Vector2Add (offset (camera gm)) moveVector) gm) ;;
  up <- IsKeyDown KEY_UP ;;
  if up then
    dt <- GetFrameTime ;;
    modify_game (fun gm =>
      set_fractal_tree_angle (fadd (fractal_tree_angle gm) (fmul (lit 10) dt)) gm)
  else
    down <- IsKeyDown KEY_DOWN ;;
    if down then
      dt <- GetFrameTime ;;
      modify_game (fun gm =>
        set_fractal_tree_angle (fadd (fractal_tree_angle gm) (fmul (lit (-10)) dt)) gm)
    else ret tt.

(** The body of the loop of [RunGame] after [InputGame]: one rendered frame. *)
Definition RenderFrame (pp_shader : Shader) (framebuffer_texture : RenderTexture2D) : M unit :=
  emit (E_BeginTextureMode framebuffer_texture) ;;
  gm <- get_game ;;
  emit (E_BeginMode2D (camera gm)) ;;
  emit (E_ClearBackground SKYBLUE) ;;
  emit E_rlPushMatrix ;;
  gm <- get_game ;;
  emit (E_rlTranslatef (lit (inject_Z (x (window_size gm))))
                       (lit (inject_Z (y (window_size gm) * 2)))
                       (lit 0)) ;;
  gm <- get_game ;;
  emit (E_RecursiveTreeDraw (fractal_tree_start_length gm)
                            (fractal_tree_start_length gm)
                            (fractal_tree_angle gm)) ;;
  emit E_rlPopMatrix ;;
  emit E_EndMode2D ;;
  emit E_EndTextureMode ;;
  emit E_BeginDrawing ;;
  emit (E_ClearBackground WHITE) ;;
  emit (E_BeginShaderMode pp_shader) ;;
  emit (E_DrawTextureRec (texture framebuffer_texture)
          (mkRectangle (lit 0) (lit 0)
             (lit (inject_Z (tex_width (texture framebuffer_texture))))
             (lit (inject_Z (- tex_height (texture framebuffer_texture)))))
          (mkVec2 (lit 0) (lit 0)) WHITE) ;;
  emit E_EndShaderMode ;;
  EndDrawing.

(** [while(!WindowShouldClose()) body] *)
Fixpoint while_window_open (fuel : nat) (body : M unit) : M unit :=
  match fuel with
  | O => out_of_fuel
  | S fuel' =>
      close <- WindowShouldClose ;;
      if close then ret tt
      else body ;; while_window_open fuel' body
  end.

(** [void RunGame(s_game* game)] *)
Definition RunGame (fuel : nat) : M unit :=
  pp_shader <- LoadShader None (TextFormat (ASSETS_PATH ++ "postprocessing.glsl") 330) ;;
  gm <- get_game ;;
  framebuffer_texture <- LoadRenderTexture (x (window_size gm)) (y (window_size gm)) ;;
  while_window_open fuel
    (InputGame ;;
     RenderFrame pp_shader framebuffer_texture) ;;
  emit E_CloseWindow.

(** [void StartGame(s_game* game)] *)
Definition StartGame (fuel : nat) : M unit :=
  gm <- get_game ;;
  emit (E_InitWindow (x (window_size gm)) (y (window_size gm)) (title gm)) ;;
  modify_game (set_camera_zoom (lit (1 # 2))) ;;
  modify_game (set_fractal_tree_angle (lit 30)) ;;
  modify_game (set_fractal_tree_start_length (lit 350)) ;;
  emit (E_SetTargetFPS 60) ;;
  RunGame fuel.

(** [void EndGame(s_game* game)]: the body is empty. *)
Definition EndGame : M unit := ret tt.

(** ** Closed forms used by the statements *)

(** The camera delta [InputGame] accumulates from the keyboard [keys]. *)
Definition move_delta (keys : KeyboardKey -> bool) : Vector2 :=
  mkVec2 (if keys KEY_D then lit (-1) else if keys KEY_A then lit 1 else lit 0)
         (if keys KEY_S then lit (-1) else if keys KEY_W then lit 1 else lit 0).

(** The branch angle after one poll with keyboard [keys] and frame time [dt]. *)
Definition turned (keys : KeyboardKey -> bool) (dt angle : F) : F :=
  if keys KEY_UP then fadd angle (fmul (lit 10) dt)
  else if keys KEY_DOWN then fadd angle (fmul (lit (-10)) dt)
  else angle.

(** The game object after one poll. *)
Definition polled (keys : KeyboardKey -> bool) (dt : F) (gm : s_game) : s_game :=
  mk_game (window_size gm) (title gm)
    (mkCamera2D (Vector2Add (offset (camera gm)) (move_delta keys))
                (target (camera gm)) (rotation (camera gm)) (zoom (camera gm)))
    (turned keys dt (fractal_tree_angle gm))
    (fractal_tree_start_length gm).

(** The game object after polling through the frames [fs]. *)
Fixpoint game_after (fs : list frame_input) (gm : s_game) : s_game :=
  match fs with
  | [] => gm
  | fr :: rest => game_after rest (polled (key_down fr) (frame_time fr) gm)
  end.

(** The game object each of the frames [fs] is rendered from. *)
Fixpoint games_rendered (fs : list frame_input) (gm : s_game) : list s_game :=
  match fs with
  | [] => []
  | fr :: rest =>
      polled (key_down fr) (frame_time fr) gm
      :: games_rendered rest (polled (key_down fr) (frame_time fr) gm)
  end.

(** The calls of one rendered frame, in order. *)
Definition frame_calls (pp_shader : Shader) (framebuffer_texture : RenderTexture2D)
    (gm : s_game) : list call :=
  [ E_BeginTextureMode framebuffer_texture;
    E_BeginMode2D (camera gm);
    E_ClearBackground SKYBLUE;
    E_rlPushMatrix;
    E_rlTranslatef (lit (inject_Z (x (window_size gm))))
                   (lit (inject_Z (y (window_size gm) * 2)))
                   (lit 0);
    E_RecursiveTreeDraw (fractal_tree_start_length gm)
                        (fractal_tree_start_length gm)
                        (fractal_tree_angle gm);
    E_rlPopMatrix;
    E_EndMode2D;
    E_EndTextureMode;
    E_BeginDrawing;
    E_ClearBackground WHITE;
    E_BeginShaderMode pp_shader;
    E_DrawTextureRec (texture framebuffer_texture)
      (mkRectangle (lit 0) (lit 0)
         (lit (inject_Z (tex_width (texture framebuffer_texture))))
         (lit (inject_Z (- tex_height (texture framebuffer_texture)))))
      (mkVec2 (lit 0) (lit 0)) WHITE;
    E_EndShaderMode;
    E_EndDrawing ].

(** The world with the frame timer of the current frame set to [dt]. *)
Definition with_elapsed (dt : F) (w : world) : world :=
  mk_world (game w)
    (match frames w with
     | fr :: rest => mk_frame (key_down fr) dt :: rest
     | [] => []
     end)
    (next_id w) (log w).

(** The handles [RunGame] gets from its two loads in world [w]. *)
Definition shader_of (w : world) : Shader := mkShader (next_id w).

Definition target_of (w : world) : RenderTexture2D :=
  mkRenderTexture (next_id w + 1)
    (mkTexture (next_id w + 2) (x (window_size (game w))) (y (window_size (game w)))).

(** The game object as [StartGame] hands it to [RunGame]. *)
Definition started (gm : s_game) : s_game :=
  mk_game (window_size gm) (title gm)
    (mkCamera2D (offset (camera gm)) (target (camera gm)) (rotation (camera gm))
                (lit (1 # 2)))
    (lit 30) (lit 350).

(** The calls of the loop of [RunGame] over the frames [fs], entered with
    game object [gm]: the calls of each frame, one frame after the other. *)
Definition loop_calls (sh : Shader) (fb : RenderTexture2D)
    (fs : list frame_input) (gm : s_game) : list call :=
  concat (map (frame_calls sh fb) (games_rendered fs gm)).

(** ** Resources *)




Definition is_InitWindow (c : call) : bool :=
  match c with E_InitWindow _ _ _ => true | _ => false end.

Definition is_LoadShader (c : call) : bool :=
  match c with E_LoadShader _ _ => true | _ => false end.

Definition is_LoadRenderTexture (c : call) : bool :=
  match c with E_LoadRenderTexture _ _ => true | _ => false end.

(** How many of [calls] satisfy [p]. *)
Definition count (p : call -> bool) (calls : list call) : nat :=
  List.length (filter p calls).

End Game.

(** ** The tree generator (tree.h) *)

Local Open Scope Q_scope.

(** The drawing commands the generator issues. *)
Inductive tree_cmd : Set :=
| T_DrawLine (length thickness : Q)
| T_Translate (length : Q)
| T_Push
| T_Rotate (degrees : Q)
| T_Pop.

Section Tree.

(** The termination threshold, the shrink factor and the thickness per unit
    of length are constants of tree.h. *)
Variables threshold shrink thickness_ratio : Q.

(** Modelled from the spec: [RecursiveTreeDraw] of tree.h, which is not among
    the sources.  Below the termination threshold it returns at once, drawing
    nothing; otherwise it draws a segment of the current length, thickness
    proportional to it, moves to its far end, and recurses twice, rotated by
    [+angleDegrees] and by [-angleDegrees], with the length scaled by the
    shrink factor, each call between a push and a pop of the transform.
    [fuel] bounds the depth of the recursion; [None] means it ran out. *)
Fixpoint RecursiveTreeDraw (fuel : nat) (currentLength baseLength angleDegrees : Q)
    : option (list tree_cmd) :=
  match fuel with
  | O => None
  | S fuel' =>
      if Qlt_le_dec currentLength threshold then Some []
      else
        match RecursiveTreeDraw fuel' (shrink * currentLength) baseLength angleDegrees,
              RecursiveTreeDraw fuel' (shrink * currentLength) baseLength angleDegrees with
        | Some turned_left, Some turned_right =>
            Some ([T_DrawLine currentLength (thickness_ratio * currentLength);
                   T_Translate currentLength]
                  ++ [T_Push; T_Rotate angleDegrees] ++ turned_left ++ [T_Pop]
                  ++ [T_Push; T_Rotate (- angleDegrees)] ++ turned_right ++ [T_Pop])
        | _, _ => None
        end
  end.

(** Levels of recursion that are enough from length [len]: while the length
    is at least the threshold, one level takes at least
    [(1 - shrink) * threshold] off it. *)
Definition level_bound (len : Q) : nat :=
  S (Z.to_nat (Qceiling (len / ((1 - shrink) * threshold)))).

End Tree.

(** ** Sample games and worlds *)

Definition up_only_keys (key : KeyboardKey) : bool :=
  match key with KEY_UP => true | _ => false end.

(** An 800 x 450 window, the camera at rest, angle 30, start length 350. *)
Definition sample_game : @s_game Q :=
  mk_game (mkVec2 800%Z 450%Z) "Fractal tree"
          (mkCamera2D (mkVec2 0 0) (mkVec2 0 0) 0 (1 # 2)) 30 350.

(** UP held for two frames of a quarter of a second, then the close request. *)
Definition sample_world : @world Q :=
  mk_world sample_game
           [mk_frame up_only_keys (1 # 4); mk_frame up_only_keys (1 # 4)]
           1%Z [].

(** The same game object in binary32, with UP held for 32 frames of 1/64 s:
    half a second in all, every frame time exact. *)
Definition sample_world_b32 : @world spec_float :=
  mk_world (mk_game (mkVec2 800%Z 450%Z) "Fractal tree"
              (mkCamera2D (mkVec2 (lit 0) (lit 0)) (mkVec2 (lit 0) (lit 0))
                          (lit 0) (lit (1 # 2)))
              (lit 30) (lit 350))
           (repeat (mk_frame up_only_keys (lit (1 # 64))) 32)
           1%Z [].

(** The close request is there at the first test of the loop. *)
Definition closing_world : @world Q :=
  mk_world sample_game [] 1%Z [].

(** ** Scopes opened and closed by the calls *)

Local Open Scope Z_scope.

(** raylib's paired calls: [BeginTextureMode]/[EndTextureMode],
    [BeginMode2D]/[EndMode2D], [rlPushMatrix]/[rlPopMatrix],
    [BeginDrawing]/[EndDrawing], [BeginShaderMode]/[EndShaderMode]. *)
Inductive scope : Set :=
| S_TextureMode | S_Mode2D | S_Matrix | S_Drawing | S_ShaderMode.

Definition scope_eqb (s1 s2 : scope) : bool :=
  match s1, s2 with
  | S_TextureMode, S_TextureMode
  | S_Mode2D, S_Mode2D
  | S_Matrix, S_Matrix
  | S_Drawing, S_Drawing
  | S_ShaderMode, S_ShaderMode => true
  | _, _ => false
  end.

Section Nesting.

Context {F : Type}.

Definition opens (c : @call F) : option scope :=
  match c with
  | E_BeginTextureMode _ => Some S_TextureMode
  | E_BeginMode2D _ => Some S_Mode2D
  | E_rlPushMatrix => Some S_Matrix
  | E_BeginDrawing => Some S_Drawing
  | E_BeginShaderMode _ => Some S_ShaderMode
  | _ => None
  end.

Definition closes (c : @call F) : option scope :=
  match c with
  | E_EndTextureMode => Some S_TextureMode
  | E_EndMode2D => Some S_Mode2D
  | E_rlPopMatrix => Some S_Matrix
  | E_EndDrawing => Some S_Drawing
  | E_EndShaderMode => Some S_ShaderMode
  | _ => None
  end.

(** The scopes left open after [calls], innermost first, starting from the
    open scopes [inside]; [None] when a call closes a scope that is not the
    innermost open one. *)
Fixpoint nesting (inside : list scope) (calls : list (@call F)) : option (list scope) :=
  match calls with
  | [] => Some inside
  | c :: rest =>
      match opens c, closes c with
      | Some s, _ => nesting (s :: inside) rest
      | None, Some s =>
          match inside with
          | top :: below => if scope_eqb s top then nesting below rest else None
          | [] => None
          end
      | None, None => nesting inside rest
      end
  end.

(** Every call that draws ([ClearBackground], [RecursiveTreeDraw],
    [DrawTextureRec]), in order, each with the scopes open when it is
    issued, innermost first: what [nesting] has on its stack there. *)
Fixpoint drawn_inside (inside : list scope) (calls : list (@call F))
    : list (@call F * list scope) :=
  match calls with
  | [] => []
  | c :: rest =>
      match opens c, closes c with
      | Some s, _ => drawn_inside (s :: inside) rest
      | None, Some _ => drawn_inside (tl inside) rest
      | None, None =>
          match c with
          | E_ClearBackground _
          | E_RecursiveTreeDraw _ _ _
          | E_DrawTextureRec _ _ _ _ => (c, inside) :: drawn_inside inside rest
          | _ => drawn_inside inside rest
          end
      end
  end.

(** The arguments of the tree draws among [calls], and the cameras applied,
    in order. *)
Definition tree_draws (calls : list (@call F)) : list (F * F * F) :=
  flat_map (fun c => match c with
                     | E_RecursiveTreeDraw len base angle => [(len, base, angle)]
                     | _ => []
                     end) calls.

Definition cameras_applied (calls : list (@call F)) : list (@Camera2D F) :=
  flat_map (fun c => match c with
                     | E_BeginMode2D cam => [cam]
                     | _ => []
                     end) calls.

End Nesting.

(** ** What the frames of a run feed in *)

Section Frames.

Context {F : Type} {FO : FloatOps F}.


(** No key is held during the frame. *)
Definition idle (fr : @frame_input F) : Prop :=
  forall key, key_down fr key = false.






End Frames.

Local Open Scope Q_scope.

(** D held for a frame of 1/60 s, A for one of 1/30 s, then UP and W for one
    of 1/4 s and DOWN for one of 1/8 s. *)
Definition mixed_world : @world Q :=
  mk_world sample_game
    [ mk_frame (fun key => match key with KEY_D => true | _ => false end) (1 # 60);
      mk_frame (fun key => match key with KEY_A => true | _ => false end) (1 # 30);
      mk_frame (fun key => match key with KEY_UP | KEY_W => true | _ => false end) (1 # 4);
      mk_frame (fun key => match key with KEY_DOWN => true | _ => false end) (1 # 8) ]
    1%Z [].


(** In binary32: three frames with no key held, the camera at (3.5, -2). *)
Definition idle_world : @world spec_float :=
  mk_world (mk_game (mkVec2 800%Z 450%Z) "Fractal tree"
              (mkCamera2D (mkVec2 (lit (7 # 2)) (lit (-2))) (mkVec2 (lit 0) (lit 0))
                          (lit 0) (lit (1 # 2)))
              (lit 30) (lit 350))
           [ mk_frame (fun _ => false) (lit (1 # 60));
             mk_frame (fun _ => false) (lit (1 # 30));
             mk_frame (fun _ => false) (lit 2) ]
           1%Z [].

(** * Properties *)

Local Open Scope Z_scope.

Section GameFacts.

Context {F : Type} {FO : FloatOps F}.
Variable ASSETS_PATH : string.

(** ** One poll of the keyboard *)

(** [InputGame] always returns; it replaces the game object by [polled] and
    touches nothing else. *)
Lemma InputGame_polled (w : world) :
  InputGame w =
  Some (tt, mk_world (polled (held w) (elapsed w) (game w))
                     (frames w) (next_id w) (log w)).
Proof.
  unfold InputGame, bind, IsKeyDown, GetFrameTime, modify_game, ret.
  unfold polled, move_delta, turned, set_camera_offset, set_fractal_tree_angle.
  unfold held, elapsed.
  destruct w as [gm [|fr rest] n l]; cbn; [reflexivity|].
  repeat match goal with
         | |- context [if key_down fr ?key then _ else _] =>
             destruct (key_down fr key); cbn
         end;
    rewrite ?fsub_0_1, ?fadd_0_1; reflexivity.
Qed.

Lemma held_with_elapsed (dt : F) (w : world) (key : KeyboardKey) :
  held (with_elapsed dt w) key = held w key.
Proof.
  unfold held, with_elapsed; cbn.
  destruct (frames w); reflexivity.
Qed.

Lemma move_delta_ext (k1 k2 : KeyboardKey -> bool) :
  (forall key, k1 key = k2 key) -> @move_delta F FO k1 = move_delta k2.
Proof.
  intros E. unfold move_delta. now rewrite !E.
Qed.

Lemma move_delta_components (keys : KeyboardKey -> bool) :
  In (x (move_delta keys)) [lit (-1); lit 0; lit 1] /\
  In (y (move_delta keys)) [lit (-1); lit 0; lit 1].
Proof.
  unfold move_delta; cbn.
  destruct (keys KEY_D), (keys KEY_A), (keys KEY_S), (keys KEY_W); cbn; tauto.
Qed.

(** C2.  Whatever the keyboard and the frame time, the vector [InputGame]
    adds to the camera offset is the raw accumulator built from the keys,
    each component one of -1, 0 and +1; the product with
    [cameraSpeed * GetFrameTime()] is discarded, so the offset applied is the
    same for every frame time. *)
Theorem InputGame_adds_unscaled_delta (w : world) :
  exists w' : world,
    InputGame w = Some (tt, w') /\
    offset (camera (game w')) =
      Vector2Add (offset (camera (game w)))
        (mkVec2 (if held w KEY_D then lit (-1) else if held w KEY_A then lit 1 else lit 0)
                (if held w KEY_S then lit (-1) else if held w KEY_W then lit 1 else lit 0)) /\
    offset (camera (game w')) =
      Vector2Add (offset (camera (game w))) (move_delta (held w)) /\
    In (x (move_delta (held w))) [lit (-1); lit 0; lit 1] /\
    In (y (move_delta (held w))) [lit (-1); lit 0; lit 1] /\
    forall dt : F, exists w'' : world,
      InputGame (with_elapsed dt w) = Some (tt, w'') /\
      offset (camera (game w'')) = offset (camera (game w')).
Proof.
  destruct (move_delta_components (held w)) as [Hx Hy].
  eexists. split; [apply InputGame_polled|].
  split; [reflexivity|]. split; [reflexivity|].
  split; [exact Hx|]. split; [exact Hy|].
  intros dt. eexists. split; [apply InputGame_polled|].
  cbn. f_equal. apply move_delta_ext, held_with_elapsed.
Qed.

(** C3.  On each axis the two keys are tested with [if ... else if]: D gives
    -1 and is tested first, A gives +1 only when D is up; S gives -1 and is
    tested first, W gives +1 only when S is up.  The effects never add up. *)
Theorem InputGame_key_priority (w : world) :
  exists w' : world,
    InputGame w = Some (tt, w') /\
    x (offset (camera (game w'))) =
      fadd (x (offset (camera (game w))))
           (if held w KEY_D then lit (-1)
            else if held w KEY_A then lit 1
            else lit 0) /\
    y (offset (camera (game w'))) =
      fadd (y (offset (camera (game w))))
           (if held w KEY_S then lit (-1)
            else if held w KEY_W then lit 1
            else lit 0).
Proof.
  eexists. split; [apply InputGame_polled|].
  split; reflexivity.
Qed.

(** C4.  With [dt] the frame time: the angle becomes [angle + 10 * dt] when
    UP is held (whether or not DOWN is), [angle + (-10) * dt] when only DOWN
    is, and stays as it is otherwise.  The result is stored as computed:
    nothing clamps it. *)
Theorem InputGame_angle_rate (w : world) :
  exists w' : world,
    InputGame w = Some (tt, w') /\
    fractal_tree_angle (game w') =
      (if held w KEY_UP then
         fadd (fractal_tree_angle (game w)) (fmul (lit 10) (elapsed w))
       else if held w KEY_DOWN then
         fadd (fractal_tree_angle (game w)) (fmul (lit (-10)) (elapsed w))
       else fractal_tree_angle (game w)).
Proof.
  eexists. split; [apply InputGame_polled|].
  reflexivity.
Qed.

(** ** One rendered frame and the loop *)

Lemma bind_emit (A : Type) (c : call) (k : unit -> M A) (w : @world F) :
  bind (emit c) k w =
  k tt (mk_world (game w) (frames w) (next_id w) (log w ++ [c])).
Proof. reflexivity. Qed.

Lemma bind_get_game (A : Type) (k : s_game -> M A) (w : @world F) :
  bind get_game k w = k (game w) w.
Proof. reflexivity. Qed.

(** [RenderFrame] always returns; it logs [frame_calls], moves on to the next
    frame's input and leaves the game object alone. *)
Lemma RenderFrame_calls (sh : Shader) (fb : RenderTexture2D) (w : world) :
  RenderFrame sh fb w =
  Some (tt, mk_world (game w) (tl (frames w)) (next_id w)
                     (log w ++ frame_calls sh fb (game w))).
Proof.
  destruct w as [gm fs n l]. unfold RenderFrame, frame_calls.
  repeat (first [rewrite bind_emit | rewrite bind_get_game];
          cbn [game frames next_id log]).
  unfold EndDrawing; cbn [game frames next_id log].
  repeat rewrite <- app_assoc. reflexivity.
Qed.

(** With more fuel than frames left, the loop runs one iteration per frame,
    in order, and exits when the close request is seen. *)
Lemma while_window_open_run (sh : Shader) (fb : RenderTexture2D)
    (fs : list frame_input) :
  forall (fuel : nat) (gm : s_game) (n : Z) (l : list call),
    (List.length fs < fuel)%nat ->
    while_window_open fuel (bind InputGame (fun _ => RenderFrame sh fb))
                      (mk_world gm fs n l) =
    Some (tt, mk_world (game_after fs gm) [] n
                       (l ++ concat (map (frame_calls sh fb) (games_rendered fs gm)))).
Proof.
  induction fs as [|fr rest IH]; intros fuel gm n l Hfuel.
  - destruct fuel as [|fuel]; [cbn in Hfuel; lia|].
    cbn. now rewrite app_nil_r.
  - destruct fuel as [|fuel]; [cbn in Hfuel; lia|].
    cbn [while_window_open].
    unfold bind at 1. cbn [WindowShouldClose frames].
    unfold bind at 1. unfold bind at 1.
    rewrite InputGame_polled. rewrite RenderFrame_calls.
    cbn [game frames next_id log tl held elapsed].
    rewrite IH by (cbn in Hfuel; lia).
    cbn [game_after games_rendered map concat].
    now rewrite <- app_assoc.
Qed.

Lemma games_rendered_length (fs : list (@frame_input F)) :
  forall gm, List.length (games_rendered fs gm) = List.length fs.
Proof.
  induction fs as [|fr rest IH]; intros gm; cbn; [reflexivity|].
  now rewrite IH.
Qed.

(** [RunGame] in full: with more fuel than frames it returns, having loaded
    the shader and the target, run the loop over every frame and closed the
    window. *)
Lemma RunGame_run (fuel : nat) (w : world) :
  (List.length (frames w) < fuel)%nat ->
  RunGame ASSETS_PATH fuel w =
  Some (tt, mk_world (game_after (frames w) (game w)) [] (next_id w + 1 + 2)
          (log w
           ++ [E_LoadShader None (TextFormat (ASSETS_PATH ++ "postprocessing.glsl") 330);
               E_LoadRenderTexture (x (window_size (game w))) (y (window_size (game w)))]
           ++ loop_calls (shader_of w) (target_of w) (frames w) (game w)
           ++ [E_CloseWindow])).
Proof.
  intros Hfuel. destruct w as [gm fs n l]. cbn in Hfuel.
  unfold RunGame.
  unfold bind at 1. cbn [LoadShader game frames next_id log].
  unfold bind at 1. cbn [get_game game].
  unfold bind at 1. cbn [LoadRenderTexture game frames next_id log].
  unfold bind at 1.
  rewrite while_window_open_run by exact Hfuel.
  unfold emit, loop_calls, shader_of, target_of. cbn [game frames next_id log].
  replace (n + 1 + 1) with (n + 2) by lia.
  repeat rewrite <- app_assoc. reflexivity.
Qed.

(** [StartGame] in full. *)
Lemma StartGame_run (fuel : nat) (w : world) :
  (List.length (frames w) < fuel)%nat ->
  StartGame ASSETS_PATH fuel w =
  Some (tt, mk_world (game_after (frames w) (started (game w))) [] (next_id w + 1 + 2)
          (log w
           ++ [E_InitWindow (x (window_size (game w))) (y (window_size (game w)))
                            (title (game w));
               E_SetTargetFPS 60;
               E_LoadShader None (TextFormat (ASSETS_PATH ++ "postprocessing.glsl") 330);
               E_LoadRenderTexture (x (window_size (game w))) (y (window_size (game w)))]
           ++ loop_calls (shader_of w) (target_of w) (frames w) (started (game w))
           ++ [E_CloseWindow])).
Proof.
  intros Hfuel. destruct w as [gm fs n l]. cbn in Hfuel.
  unfold StartGame.
  unfold bind at 1. cbn [get_game game].
  unfold bind at 1. cbn [emit game frames next_id log].
  unfold bind at 1. cbn [modify_game game frames next_id log].
  unfold bind at 1. cbn [modify_game game frames next_id log].
  unfold bind at 1. cbn [modify_game game frames next_id log].
  unfold bind at 1. cbn [emit game frames next_id log].
  rewrite RunGame_run by exact Hfuel.
  cbn [game frames next_id log].
  unfold shader_of, target_of. cbn [game frames next_id log].
  repeat rewrite <- app_assoc. reflexivity.
Qed.

(** Counting calls. *)
Lemma count_app (p : call -> bool) (l1 l2 : list (@call F)) :
  count p (l1 ++ l2) = (count p l1 + count p l2)%nat.
Proof.
  unfold count. now rewrite filter_app, length_app.
Qed.

Lemma count_loop_calls (p : call -> bool) (sh : Shader) (fb : RenderTexture2D) :
  (forall gm, count p (frame_calls sh fb gm) = 0%nat) ->
  forall fs gm, count p (loop_calls sh fb fs gm) = 0%nat.
Proof.
  intros Hp. unfold loop_calls.
  induction fs as [|fr rest IH]; intros gm; cbn [games_rendered map concat].
  - reflexivity.
  - now rewrite count_app, Hp, IH.
Qed.



Lemma games_rendered_window_size (fs : list (@frame_input F)) :
  forall gm ws, window_size gm = ws ->
    Forall (fun g1 : s_game => window_size g1 = ws) (games_rendered fs gm).
Proof.
  induction fs as [|fr rest IH]; intros gm ws Hws; cbn; constructor.
  - exact Hws.
  - apply IH. exact Hws.
Qed.

(** ** The run as a whole *)

(** C6.  The loop emits, for every frame in turn and from the game object
    just polled: bind the off-screen target, apply the camera, clear to sky
    blue, push, translate to (width, 2 * height), draw the tree from the
    current start length and angle, pop, end the camera mode, then the
    texture mode, begin drawing, clear to white, bind the bloom shader, draw
    the target's colour buffer over (0, 0, +width, -height) at the origin,
    unbind the shader, present. *)
Theorem RunGame_frame_order (fuel : nat) (w : world) :
  (List.length (frames w) < fuel)%nat ->
  exists w' : world,
    RunGame ASSETS_PATH fuel w = Some (tt, w') /\
    log w' =
      log w
      ++ [E_LoadShader None (TextFormat (ASSETS_PATH ++ "postprocessing.glsl") 330);
          E_LoadRenderTexture (x (window_size (game w))) (y (window_size (game w)))]
      ++ concat
           (map (fun gm : s_game =>
                   [ E_BeginTextureMode (target_of w);
                     E_BeginMode2D (camera gm);
                     E_ClearBackground SKYBLUE;
                     E_rlPushMatrix;
                     E_rlTranslatef (lit (inject_Z (x (window_size gm))))
                                    (lit (inject_Z (y (window_size gm) * 2)))
                                    (lit 0);
                     E_RecursiveTreeDraw (fractal_tree_start_length gm)
                                         (fractal_tree_start_length gm)
                                         (fractal_tree_angle gm);
                     E_rlPopMatrix;
                     E_EndMode2D;
                     E_EndTextureMode;
                     E_BeginDrawing;
                     E_ClearBackground WHITE;
                     E_BeginShaderMode (shader_of w);
                     E_DrawTextureRec (texture (target_of w))
                       (mkRectangle (lit 0) (lit 0)
                          (lit (inject_Z (x (window_size (game w)))))
                          (lit (inject_Z (- y (window_size (game w))))))
                       (mkVec2 (lit 0) (lit 0)) WHITE;
                     E_EndShaderMode;
                     E_EndDrawing ])
                (games_rendered (frames w) (game w)))
      ++ [E_CloseWindow] /\
    List.length (games_rendered (frames w) (game w)) = List.length (frames w) /\
    Forall (fun gm => window_size gm = window_size (game w))
           (games_rendered (frames w) (game w)).
Proof.
  intros Hfuel. eexists. split; [apply RunGame_run, Hfuel|].
  split; [reflexivity|]. split; [apply games_rendered_length|].
  apply games_rendered_window_size. reflexivity.
Qed.

(** C7.  [StartGame] first creates the window with the configured size and
    title; it enters the loop with zoom 0.5, angle 30 and start length 350
    (the rest of the game object as it was), having capped the frame rate at
    60; the log of the whole run holds one window creation, one shader load
    and one render-target creation, all before the first frame. *)
Theorem StartGame_initialises (fuel : nat) (w : world) :
  (List.length (frames w) < fuel)%nat ->
  exists (w' : world) (entered : s_game) (calls : list call),
    StartGame ASSETS_PATH fuel w = Some (tt, w') /\
    log w' =
      log w
      ++ [E_InitWindow (x (window_size (game w))) (y (window_size (game w)))
                       (title (game w));
          E_SetTargetFPS 60;
          E_LoadShader None (TextFormat (ASSETS_PATH ++ "postprocessing.glsl") 330);
          E_LoadRenderTexture (x (window_size (game w))) (y (window_size (game w)))]
      ++ calls /\
    calls = loop_calls (shader_of w) (target_of w) (frames w) entered
            ++ [E_CloseWindow] /\
    game w' = game_after (frames w) entered /\
    entered =
      mk_game (window_size (game w)) (title (game w))
        (mkCamera2D (offset (camera (game w))) (target (camera (game w)))
                    (rotation (camera (game w))) (lit (1 # 2)))
        (lit 30) (lit 350) /\
    count is_InitWindow calls = 0%nat /\
    count is_LoadShader calls = 0%nat /\
    count is_LoadRenderTexture calls = 0%nat.
Proof.
  intros Hfuel.
  exists (mk_world (game_after (frames w) (started (game w))) [] (next_id w + 1 + 2)
          (log w
           ++ [E_InitWindow (x (window_size (game w))) (y (window_size (game w)))
                            (title (game w));
               E_SetTargetFPS 60;
               E_LoadShader None (TextFormat (ASSETS_PATH ++ "postprocessing.glsl") 330);
               E_LoadRenderTexture (x (window_size (game w))) (y (window_size (game w)))]
           ++ loop_calls (shader_of w) (target_of w) (frames w) (started (game w))
           ++ [E_CloseWindow])).
  exists (started (game w)).
  exists (loop_calls (shader_of w) (target_of w) (frames w) (started (game w))
          ++ [E_CloseWindow]).
  split; [apply StartGame_run, Hfuel|].
  repeat (split; [reflexivity|]).
  repeat split; rewrite count_app, count_loop_calls; reflexivity.
Qed.

(** A format without a percent sign comes out of [TextFormat] as it is. *)
Lemma format_int_plain (format : string) (arg : Z) :
  has_percent format = false -> format_int format arg = format.
Proof.
  induction format as [|c rest IH]; cbn [has_percent format_int]; [reflexivity|].
  intros H. apply orb_false_iff in H. destruct H as [Hc Hrest].
  rewrite Hc. now rewrite IH.
Qed.

Lemma has_percent_app (s1 s2 : string) :
  has_percent (s1 ++ s2) = has_percent s1 || has_percent s2.
Proof.
  induction s1 as [|c rest IH]; cbn [append has_percent]; [reflexivity|].
  now rewrite IH, orb_assoc.
Qed.

(** C9, as amended.  [RunGame] begins by loading the shader and no later
    call of the run loads one.  The call names no vertex shader file (its
    first argument is 0) and takes the fragment shader from [TextFormat]
    applied to ASSETS_PATH "postprocessing.glsl" and 330; the format has no
    conversion for the 330, so with no percent sign in ASSETS_PATH the file
    loaded is ASSETS_PATH "postprocessing.glsl" itself. *)
Theorem RunGame_loads_fragment_shader_once (fuel : nat) (w : world) :
  (List.length (frames w) < fuel)%nat ->
  has_percent ASSETS_PATH = false ->
  exists (w' : world) (fsFileName : text) (calls : list call),
    RunGame ASSETS_PATH fuel w = Some (tt, w') /\
    log w' = log w ++ E_LoadShader None fsFileName :: calls /\
    count is_LoadShader calls = 0%nat /\
    fsFileName = TextFormat (ASSETS_PATH ++ "postprocessing.glsl") 330 /\
    text_value fsFileName = (ASSETS_PATH ++ "postprocessing.glsl")%string.
Proof.
  intros Hfuel Hplain.
  eexists. eexists. eexists. split; [apply RunGame_run, Hfuel|].
  split; [reflexivity|].
  split.
  - cbn [app]. unfold count at 1. cbn [filter is_LoadRenderTexture is_LoadShader].
    fold (count is_LoadShader
            (loop_calls (shader_of w) (target_of w) (frames w) (game w) ++ [E_CloseWindow])).
    rewrite count_app, count_loop_calls; reflexivity.
  - split; [reflexivity|].
    cbn [text_value]. apply format_int_plain.
    rewrite has_percent_app, Hplain. reflexivity.
Qed.


(** C10.  [EndGame] returns at once with the world as it was: the game
    object, the pending input, the GPU ids and the log of calls. *)
Theorem EndGame_noop (w : @world F) :
  EndGame w = Some (tt, w) /\
  forall (A : Type) (m : @M F A), bind EndGame (fun _ => m) w = m w.
Proof.
  split; [reflexivity|].
  intros A m. reflexivity.
Qed.

End GameFacts.

(** ** The tree generator *)

Local Open Scope Q_scope.

Section TreeFacts.

Variables threshold shrink thickness_ratio : Q.
Hypothesis threshold_pos : 0 < threshold.
Hypothesis shrink_lt_1 : shrink < 1.

(** One level of the recursion, unfolded. *)
Lemma RecursiveTreeDraw_S (fuel : nat) (len base angle : Q) :
  RecursiveTreeDraw threshold shrink thickness_ratio (S fuel) len base angle =
  if Qlt_le_dec len threshold then Some []
  else
    match RecursiveTreeDraw threshold shrink thickness_ratio fuel (shrink * len) base angle,
          RecursiveTreeDraw threshold shrink thickness_ratio fuel (shrink * len) base angle with
    | Some turned_left, Some turned_right =>
        Some ([T_DrawLine len (thickness_ratio * len); T_Translate len]
              ++ [T_Push; T_Rotate angle] ++ turned_left ++ [T_Pop]
              ++ [T_Push; T_Rotate (- angle)] ++ turned_right ++ [T_Pop])
    | _, _ => None
    end.
Proof. reflexivity. Qed.

(** Below the threshold the call returns at once and draws nothing. *)
Lemma RecursiveTreeDraw_below (fuel : nat) (len base angle : Q) :
  len < threshold -> RecursiveTreeDraw threshold shrink thickness_ratio (S fuel) len base angle = Some [].
Proof.
  intros Hlen. rewrite RecursiveTreeDraw_S.
  destruct (Qlt_le_dec len threshold) as [_|Hge]; [reflexivity|].
  exfalso. apply (Qlt_not_le _ _ Hlen Hge).
Qed.

(** At or above the threshold a call that returns has drawn its segment. *)
Lemma RecursiveTreeDraw_above (fuel : nat) (len base angle : Q) (cmds : list tree_cmd) :
  threshold <= len ->
  RecursiveTreeDraw threshold shrink thickness_ratio fuel len base angle = Some cmds ->
  exists rest, cmds = T_DrawLine len (thickness_ratio * len) :: rest.
Proof.
  intros Hge. destruct fuel as [|fuel]; [discriminate|].
  rewrite RecursiveTreeDraw_S.
  destruct (Qlt_le_dec len threshold) as [Hlt|_].
  - exfalso. apply (Qlt_not_le _ _ Hlt Hge).
  - destruct (RecursiveTreeDraw threshold shrink thickness_ratio fuel (shrink * len) base angle) as [sub|]; [|discriminate].
    intros E. injection E as <-. eexists. reflexivity.
Qed.

(** More fuel does not change a result. *)
Lemma RecursiveTreeDraw_more_fuel (fuel : nat) :
  forall (len base angle : Q) (cmds : list tree_cmd),
    RecursiveTreeDraw threshold shrink thickness_ratio fuel len base angle = Some cmds ->
    RecursiveTreeDraw threshold shrink thickness_ratio (S fuel) len base angle = Some cmds.
Proof.
  induction fuel as [|fuel IH]; intros len base angle cmds; [discriminate|].
  intros H. rewrite RecursiveTreeDraw_S in H.
  rewrite (RecursiveTreeDraw_S (S fuel)).
  destruct (Qlt_le_dec len threshold) as [_|_]; [exact H|].
  destruct (RecursiveTreeDraw threshold shrink thickness_ratio fuel (shrink * len) base angle) as [sub|] eqn:E; [|discriminate].
  rewrite (IH _ _ _ _ E). exact H.
Qed.

Lemma RecursiveTreeDraw_fuel_le (fuel fuel' : nat) (len base angle : Q)
    (cmds : list tree_cmd) :
  (fuel <= fuel')%nat ->
  RecursiveTreeDraw threshold shrink thickness_ratio fuel len base angle = Some cmds ->
  RecursiveTreeDraw threshold shrink thickness_ratio fuel' len base angle = Some cmds.
Proof.
  induction 1 as [|fuel' _ IH]; intros H; [exact H|].
  apply RecursiveTreeDraw_more_fuel, IH, H.
Qed.

(** One level takes at least [(1 - shrink) * threshold] off a length that is
    not below the threshold, so [n] levels are enough below
    [threshold + n * (1 - shrink) * threshold]. *)
Lemma RecursiveTreeDraw_levels (n : nat) :
  forall len base angle : Q,
    len < threshold + inject_Z (Z.of_nat n) * ((1 - shrink) * threshold) ->
    exists cmds, RecursiveTreeDraw threshold shrink thickness_ratio (S n) len base angle = Some cmds.
Proof using threshold_pos shrink_lt_1.
  induction n as [|n IH]; intros len base angle Hlen.
  - exists []. apply RecursiveTreeDraw_below.
    change (inject_Z (Z.of_nat 0)) with 0 in Hlen. lra.
  - rewrite RecursiveTreeDraw_S.
    destruct (Qlt_le_dec len threshold) as [_|Hge]; [now exists []|].
    destruct (IH (shrink * len) base angle) as [sub Hsub].
    + rewrite Nat2Z.inj_succ, <- Z.add_1_r, inject_Z_plus in Hlen.
      change (inject_Z 1) with 1 in Hlen.
      assert (Hstep : (1 - shrink) * threshold <= (1 - shrink) * len).
      { apply Qmult_le_l; [lra | exact Hge]. }
      lra.
    + rewrite Hsub. eexists. reflexivity.
Qed.

Lemma level_bound_enough (len : Q) :
  len < threshold
        + inject_Z (Z.of_nat (Z.to_nat (Qceiling (len / ((1 - shrink) * threshold)))))
          * ((1 - shrink) * threshold).
Proof using threshold_pos shrink_lt_1.
  set (c := (1 - shrink) * threshold).
  assert (Hc : 0 < c) by (unfold c; apply Qmult_lt_0_compat; lra).
  set (q := Qceiling (len / c)).
  assert (Hq : len / c <= inject_Z q) by apply Qle_ceiling.
  assert (Hn : inject_Z q <= inject_Z (Z.of_nat (Z.to_nat q))).
  { rewrite <- Zle_Qle. lia. }
  assert (E : c * (len / c) == len).
  { apply Qmult_div_r. intros H0. rewrite H0 in Hc. discriminate. }
  assert (Hlen : c * (len / c) <= c * inject_Z (Z.of_nat (Z.to_nat q))).
  { apply Qmult_le_l; [exact Hc|].
    eapply Qle_trans; [exact Hq | exact Hn]. }
  rewrite E in Hlen.
  setoid_replace (inject_Z (Z.of_nat (Z.to_nat q)) * c)
    with (c * inject_Z (Z.of_nat (Z.to_nat q))) by apply Qmult_comm.
  apply Qle_lt_trans with (1 := Hlen).
  rewrite <- (Qplus_0_l (c * _)) at 1.
  apply Qplus_lt_l. exact threshold_pos.
Qed.

End TreeFacts.

(** C1.  With a positive threshold and a shrink factor below 1, the call
    [RecursiveTreeDraw(L, L, angle)] on a length above the threshold returns
    within [level_bound] levels of recursion (any fuel from there on gives
    the same commands, the trunk first); and whenever the current length is
    below the threshold the call returns at once with nothing drawn. *)
Theorem RecursiveTreeDraw_terminates (threshold shrink thickness_ratio L angle : Q) :
  0 < threshold -> shrink < 1 -> threshold < L ->
  (exists cmds rest : list tree_cmd,
     cmds = T_DrawLine L (thickness_ratio * L) :: rest /\
     forall fuel : nat,
       (level_bound threshold shrink L <= fuel)%nat ->
       RecursiveTreeDraw threshold shrink thickness_ratio fuel L L angle = Some cmds) /\
  (forall (fuel : nat) (len base : Q),
     len < threshold ->
     RecursiveTreeDraw threshold shrink thickness_ratio (S fuel) len base angle = Some []).
Proof.
  intros HT Hs HL. split.
  - destruct (RecursiveTreeDraw_levels threshold shrink thickness_ratio HT Hs
                (Z.to_nat (Qceiling (L / ((1 - shrink) * threshold)))) L L angle
                (level_bound_enough threshold shrink HT Hs L)) as [cmds Hcmds].
    destruct (RecursiveTreeDraw_above threshold shrink thickness_ratio _ L L angle cmds
                (Qlt_le_weak _ _ HL) Hcmds) as [rest Hrest].
    exists cmds, rest. split; [exact Hrest|].
    intros fuel Hfuel.
    apply (RecursiveTreeDraw_fuel_le threshold shrink thickness_ratio _ _ _ _ _ _ Hfuel Hcmds).
  - intros fuel len base Hlen.
    apply RecursiveTreeDraw_below, Hlen.
Qed.

(** The scenario of the spec: threshold 4, shrink factor 0.75, length 350,
    angle 30. *)
Lemma RecursiveTreeDraw_terminates_witness :
  (exists cmds rest : list tree_cmd,
     cmds = T_DrawLine 350 (1 * 350) :: rest /\
     forall fuel : nat,
       (level_bound 4 (3 # 4) 350 <= fuel)%nat ->
       RecursiveTreeDraw 4 (3 # 4) 1 fuel 350 350 30 = Some cmds) /\
  (forall (fuel : nat) (len base : Q),
     len < 4 ->
     RecursiveTreeDraw 4 (3 # 4) 1 (S fuel) len base 30 = Some []).
Proof.
  apply (RecursiveTreeDraw_terminates 4 (3 # 4) 1 350 30); reflexivity.
Defined.

(** A small tree, run: 6 and 4.5 are drawn, 3.375 is below the threshold. *)
Example RecursiveTreeDraw_small :
  RecursiveTreeDraw 4 (3 # 4) 1 3 6 6 30 =
  Some [ T_DrawLine 6 (1 * 6); T_Translate 6;
         T_Push; T_Rotate 30;
           T_DrawLine ((3 # 4) * 6) (1 * ((3 # 4) * 6)); T_Translate ((3 # 4) * 6);
           T_Push; T_Rotate 30; T_Pop;
           T_Push; T_Rotate (- (30)); T_Pop;
         T_Pop;
         T_Push; T_Rotate (- (30));
           T_DrawLine ((3 # 4) * 6) (1 * ((3 # 4) * 6)); T_Translate ((3 # 4) * 6);
           T_Push; T_Rotate 30; T_Pop;
           T_Push; T_Rotate (- (30)); T_Pop;
         T_Pop ].
Proof. reflexivity. Qed.

(** ** UP held for half a second *)

Local Open Scope Z_scope.

Section UpHeld.

Context {F : Type} {FO : FloatOps F}.
Variable ASSETS_PATH : string.





End UpHeld.






(** ** Concrete runs *)

Local Open Scope Z_scope.


Lemma RunGame_frame_order_witness :
  exists w' : @world Q,
    RunGame "assets/" 3 sample_world = Some (tt, w') /\
    List.length (log w') = 33%nat /\
    nth_error (log w') 2 = Some (E_BeginTextureMode (target_of sample_world)) /\
    nth_error (log w') 16 = Some E_EndDrawing /\
    nth_error (log w') 17 = Some (E_BeginTextureMode (target_of sample_world)).
Proof.
  destruct (RunGame_frame_order "assets/" 3 sample_world)
    as (w' & Hrun & Hlog & _); [cbn; lia|].
  exists w'. split; [exact Hrun|]. rewrite Hlog. repeat split.
Defined.

Lemma StartGame_initialises_witness :
  exists w' : @world Q,
    StartGame "assets/" 3 sample_world = Some (tt, w') /\
    firstn 4 (log w') =
      [ E_InitWindow 800 450 "Fractal tree";
        E_SetTargetFPS 60;
        E_LoadShader None (TextFormat "assets/postprocessing.glsl" 330);
        E_LoadRenderTexture 800 450 ].
Proof.
  destruct (StartGame_initialises "assets/" 3 sample_world)
    as (w' & entered & calls & Hrun & Hlog & _); [cbn; lia|].
  exists w'. split; [exact Hrun|]. rewrite Hlog. reflexivity.
Defined.

Lemma RunGame_loads_fragment_shader_once_witness :
  exists w' : @world Q,
    RunGame "assets/" 3 sample_world = Some (tt, w') /\
    hd_error (log w') =
      Some (E_LoadShader None (TextFormat "assets/postprocessing.glsl" 330)) /\
    text_value (TextFormat "assets/postprocessing.glsl" 330) =
      "assets/postprocessing.glsl"%string.
Proof.
  destruct (RunGame_loads_fragment_shader_once "assets/" 3 sample_world)
    as (w' & fsFileName & calls & Hrun & Hlog & _ & Hname & Hvalue);
    [cbn; lia | reflexivity |].
  exists w'. split; [exact Hrun|]. rewrite Hlog, Hname.
  split; reflexivity.
Defined.

(** C9, as stated, fails.  With ASSETS_PATH "assets/" the one shader load of
    the run names no vertex shader file, and the fragment shader file it
    names is "assets/postprocessing.glsl": 330 is nowhere in the path. *)
Lemma RunGame_shader_path_without_version :
  exists (w' : @world Q) (fsFileName : text) (calls : list call),
    RunGame "assets/" 1 closing_world = Some (tt, w') /\
    log w' = E_LoadShader None fsFileName :: calls /\
    count is_LoadShader calls = 0%nat /\
    text_value fsFileName = "assets/postprocessing.glsl"%string /\
    index 0 "330" (text_value fsFileName) = None.
Proof.
  eexists. eexists. eexists. split; [reflexivity|].
  split; [reflexivity|].
  repeat split.
Qed.

(** One poll with D held and a frame time of 1/60: the offset moves by a
    full unit, not by the 10/60 the scaling would give. *)
Example InputGame_unscaled_step :
  InputGame (mk_world sample_game
               [mk_frame (fun key => match key with KEY_D => true | _ => false end)
                         (1 # 60)%Q]
               1 [])
  = Some (tt,
          mk_world (mk_game (mkVec2 800 450) "Fractal tree"
                      (mkCamera2D (mkVec2 (-1)%Q 0%Q) (mkVec2 0%Q 0%Q) 0%Q (1 # 2)%Q)
                      30%Q 350%Q)
            [mk_frame (fun key => match key with KEY_D => true | _ => false end)
                      (1 # 60)%Q]
            1 []).
Proof. reflexivity. Qed.

(** The same program in binary32.  With UP held for 1/64 s the angle goes
    from 30 to 30.15625, which binary32 holds exactly. *)
Example InputGame_binary32_step :
  exists w' : @world spec_float,
    InputGame (mk_world (mk_game (mkVec2 800 450) "Fractal tree"
                           (mkCamera2D (mkVec2 (lit 0) (lit 0)) (mkVec2 (lit 0) (lit 0))
                                       (lit 0) (lit (1 # 2)))
                           (lit 30) (lit 350))
                 [mk_frame up_only_keys (lit (1 # 64))] 1 [])
    = Some (tt, w') /\
    fractal_tree_angle (game w') = lit (965 # 32) /\
    offset (camera (game w')) = mkVec2 (lit 0) (lit 0).
Proof.
  eexists. split; [apply InputGame_polled|].
  split; vm_compute; reflexivity.
Qed.

(** In binary32 a step of less than half an ulp of the angle is absorbed:
    with UP held for 2^-24 s the angle stays at 30. *)
Example InputGame_binary32_small_step :
  exists w' : @world spec_float,
    InputGame (mk_world (mk_game (mkVec2 800 450) "Fractal tree"
                           (mkCamera2D (mkVec2 (lit 0) (lit 0)) (mkVec2 (lit 0) (lit 0))
                                       (lit 0) (lit (1 # 2)))
                           (lit 30) (lit 350))
                 [mk_frame up_only_keys (lit (1 # 16777216))] 1 [])
    = Some (tt, w') /\
    fractal_tree_angle (game w') = lit 30.
Proof.
  eexists. split; [apply InputGame_polled|].
  vm_compute; reflexivity.
Qed.

(** Half a second of UP in binary32, in 32 frames of 1/64 s: every
    intermediate angle is a multiple of 1/32 below 64, so nothing is rounded
    and the run ends at 35 exactly, the offset at (0, 0). *)
Example RunGame_binary32_half_second :
  exists w' : @world spec_float,
    RunGame "assets/" 33 sample_world_b32 = Some (tt, w') /\
    fractal_tree_angle (game w') = lit 35 /\
    offset (camera (game w')) = mkVec2 (lit 0) (lit 0).
Proof.
  eexists. split; [apply RunGame_run; vm_compute; lia|].
  split; vm_compute; reflexivity.
Qed.

(** * Further properties of game.c *)

Local Open Scope Z_scope.

Section MoreGameFacts.

Context {F : Type} {FO : FloatOps F}.
Variable ASSETS_PATH : string.

(** ** What a poll and a run leave alone *)

(** X1.  [InputGame] writes the camera offset and the branch angle and
    nothing else: the window size, the title, the camera's target, rotation
    and zoom and the start length are as before; it issues no call, uses up
    no input and loads nothing. *)
Theorem InputGame_writes_offset_and_angle_only (w : world) :
  exists w' : world,
    InputGame w = Some (tt, w') /\
    log w' = log w /\
    frames w' = frames w /\
    next_id w' = next_id w /\
    window_size (game w') = window_size (game w) /\
    title (game w') = title (game w) /\
    target (camera (game w')) = target (camera (game w)) /\
    rotation (camera (game w')) = rotation (camera (game w)) /\
    zoom (camera (game w')) = zoom (camera (game w)) /\
    fractal_tree_start_length (game w') = fractal_tree_start_length (game w).
Proof.
  eexists. split; [apply InputGame_polled|].
  repeat split.
Qed.

(** The fields no poll writes, over any number of frames. *)
Lemma game_after_keeps (fs : list (@frame_input F)) :
  forall gm : s_game,
    window_size (game_after fs gm) = window_size gm /\
    title (game_after fs gm) = title gm /\
    target (camera (game_after fs gm)) = target (camera gm) /\
    rotation (camera (game_after fs gm)) = rotation (camera gm) /\
    zoom (camera (game_after fs gm)) = zoom (camera gm) /\
    fractal_tree_start_length (game_after fs gm) = fractal_tree_start_length gm.
Proof.
  induction fs as [|fr rest IH]; intros gm; cbn [game_after].
  - repeat split.
  - destruct (IH (polled (key_down fr) (frame_time fr) gm))
      as (H1 & H2 & H3 & H4 & H5 & H6).
    rewrite H1, H2, H3, H4, H5, H6. repeat split.
Qed.

Lemma games_rendered_keep (fs : list (@frame_input F)) :
  forall gm : s_game,
    Forall (fun g1 : s_game =>
              zoom (camera g1) = zoom (camera gm) /\
              target (camera g1) = target (camera gm) /\
              rotation (camera g1) = rotation (camera gm) /\
              fractal_tree_start_length g1 = fractal_tree_start_length gm)
           (games_rendered fs gm).
Proof.
  induction fs as [|fr rest IH]; intros gm; cbn [games_rendered]; constructor.
  - repeat split.
  - apply (IH (polled (key_down fr) (frame_time fr) gm)).
Qed.

(** A call of the loop is a call of one of its frames. *)
Lemma In_loop_calls (sh : Shader) (fb : RenderTexture2D) (c : call)
    (fs : list frame_input) (gm : s_game) :
  In c (loop_calls sh fb fs gm) ->
  exists g1 : s_game, In g1 (games_rendered fs gm) /\ In c (frame_calls sh fb g1).
Proof.
  unfold loop_calls. intros H.
  apply in_concat in H. destruct H as (l & Hl & Hc).
  apply in_map_iff in Hl. destruct Hl as (g1 & <- & Hg).
  exists g1. split; assumption.
Qed.

(** X2.  Whatever the input, a run of [RunGame] ends with the window size,
    the title, the camera's target, rotation and zoom and the start length
    it began with: the loop only ever moves the offset and the angle. *)
Theorem RunGame_keeps_window_camera_and_length (fuel : nat) (w : world) :
  (List.length (frames w) < fuel)%nat ->
  exists w' : world,
    RunGame ASSETS_PATH fuel w = Some (tt, w') /\
    window_size (game w') = window_size (game w) /\
    title (game w') = title (game w) /\
    target (camera (game w')) = target (camera (game w)) /\
    rotation (camera (game w')) = rotation (camera (game w)) /\
    zoom (camera (game w')) = zoom (camera (game w)) /\
    fractal_tree_start_length (game w') = fractal_tree_start_length (game w).
Proof.
  intros Hfuel. eexists. split; [apply RunGame_run, Hfuel|].
  cbn [game]. apply game_after_keeps.
Qed.

Lemma tree_draws_app (l1 l2 : list (@call F)) :
  tree_draws (l1 ++ l2) = tree_draws l1 ++ tree_draws l2.
Proof. apply flat_map_app. Qed.

Lemma cameras_applied_app (l1 l2 : list (@call F)) :
  cameras_applied (l1 ++ l2) = cameras_applied l1 ++ cameras_applied l2.
Proof. apply flat_map_app. Qed.

Lemma tree_draws_loop_calls (sh : Shader) (fb : RenderTexture2D) (fs : list frame_input) :
  forall gm : s_game,
    tree_draws (loop_calls sh fb fs gm) =
    map (fun g1 : s_game => (fractal_tree_start_length g1,
                             fractal_tree_start_length g1,
                             fractal_tree_angle g1))
        (games_rendered fs gm) /\
    cameras_applied (loop_calls sh fb fs gm) = map camera (games_rendered fs gm).
Proof.
  unfold loop_calls.
  induction fs as [|fr rest IH]; intros gm; cbn [games_rendered map concat].
  - split; reflexivity.
  - rewrite tree_draws_app, cameras_applied_app.
    destruct (IH (polled (key_down fr) (frame_time fr) gm)) as [Ht Hc].
    rewrite Ht, Hc. split; reflexivity.
Qed.

(** X3.  In a run of [StartGame], every frame draws the tree once, with 350
    as both its current and its base length and with the angle of that
    frame, and applies the camera once, at zoom 0.5 with the target and the
    rotation the caller gave: no key changes them. *)
Theorem StartGame_draws_with_fixed_length_and_zoom (fuel : nat) (w : world) :
  (List.length (frames w) < fuel)%nat ->
  exists (w' : world) (calls : list call),
    StartGame ASSETS_PATH fuel w = Some (tt, w') /\
    log w' = log w ++ calls /\
    tree_draws calls =
      map (fun gm : s_game => (lit 350, lit 350, fractal_tree_angle gm))
          (games_rendered (frames w) (started (game w))) /\
    List.length (tree_draws calls) = List.length (frames w) /\
    map (fun cam : Camera2D => (zoom cam, target cam, rotation cam))
        (cameras_applied calls) =
      repeat (lit (1 # 2), target (camera (game w)), rotation (camera (game w)))
             (List.length (frames w)) /\
    (forall len base angle : F,
       In (E_RecursiveTreeDraw len base angle) calls ->
       len = lit 350 /\ base = lit 350) /\
    (forall cam : Camera2D,
       In (E_BeginMode2D cam) calls ->
       zoom cam = lit (1 # 2) /\
       target cam = target (camera (game w)) /\
       rotation cam = rotation (camera (game w))).
Proof.
  intros Hfuel. eexists. eexists.
  split; [apply StartGame_run, Hfuel|].
  split; [reflexivity|].
  pose proof (games_rendered_keep (frames w) (started (game w))) as Hkeep.
  destruct (tree_draws_loop_calls (shader_of w) (target_of w) (frames w)
              (started (game w))) as [Htrees Hcams].
  assert (Hdraws :
    tree_draws
      ([E_InitWindow (x (window_size (game w))) (y (window_size (game w)))
                     (title (game w));
        E_SetTargetFPS 60;
        E_LoadShader None (TextFormat (ASSETS_PATH ++ "postprocessing.glsl") 330);
        E_LoadRenderTexture (x (window_size (game w))) (y (window_size (game w)))]
       ++ loop_calls (shader_of w) (target_of w) (frames w) (started (game w))
       ++ [E_CloseWindow]) =
    map (fun gm : s_game => (lit 350, lit 350, fractal_tree_angle gm))
        (games_rendered (frames w) (started (game w)))).
  { rewrite !tree_draws_app, Htrees. cbn [tree_draws flat_map app].
    rewrite app_nil_r. apply map_ext_Forall.
    revert Hkeep. apply Forall_impl. intros g1 (_ & _ & _ & Hlen).
    now rewrite Hlen. }
  split; [exact Hdraws|].
  split; [rewrite Hdraws, length_map; apply games_rendered_length|].
  split.
  { rewrite !cameras_applied_app, Hcams. cbn [cameras_applied flat_map app].
    rewrite app_nil_r, map_map, <- (games_rendered_length (frames w) (started (game w))).
    revert Hkeep. generalize (games_rendered (frames w) (started (game w))).
    induction 1 as [|g1 gs (Hz & Ht & Hr & _) _ IH]; cbn [map List.length repeat].
    - reflexivity.
    - rewrite Hz, Ht, Hr, IH. reflexivity. }
  rewrite Forall_forall in Hkeep.
  split.
  - intros len base angle Hin.
    apply in_app_or in Hin. destruct Hin as [Hin|Hin].
    { cbn in Hin. repeat (destruct Hin as [Hin|Hin]; [discriminate|]). contradiction. }
    apply in_app_or in Hin. destruct Hin as [Hin|Hin].
    + apply In_loop_calls in Hin. destruct Hin as (g1 & Hg & Hc).
      destruct (Hkeep g1 Hg) as (_ & _ & _ & Hlen).
      cbn in Hc.
      repeat (destruct Hc as [Hc|Hc]; [try discriminate|]); [|contradiction].
      injection Hc as <- <- <-. now rewrite Hlen.
    + cbn in Hin. destruct Hin as [Hin|[]]. discriminate.
  - intros cam Hin.
    apply in_app_or in Hin. destruct Hin as [Hin|Hin].
    { cbn in Hin. repeat (destruct Hin as [Hin|Hin]; [discriminate|]). contradiction. }
    apply in_app_or in Hin. destruct Hin as [Hin|Hin].
    + apply In_loop_calls in Hin. destruct Hin as (g1 & Hg & Hc).
      destruct (Hkeep g1 Hg) as (Hz & Ht & Hr & _).
      cbn in Hc.
      repeat (destruct Hc as [Hc|Hc]; [try discriminate|]); [|contradiction].
      injection Hc as <-. now rewrite Hz, Ht, Hr.
    + cbn in Hin. destruct Hin as [Hin|[]]. discriminate.
Qed.

(** X4.  [StartGame] overwrites the zoom, the branch angle and the start
    length before anything reads them: whatever values the game object holds
    for them on entry, the run is the same. *)
Theorem StartGame_overrides_parameters (fuel : nat) (w : world) (z angle len : F) :
  StartGame ASSETS_PATH fuel
    (mk_world
       (mk_game (window_size (game w)) (title (game w))
          (mkCamera2D (offset (camera (game w))) (target (camera (game w)))
                      (rotation (camera (game w))) z)
          angle len)
       (frames w) (next_id w) (log w))
  = StartGame ASSETS_PATH fuel w.
Proof.
  destruct w as [gm fs n l]. unfold StartGame.
  rewrite !bind_get_game. cbn [game frames next_id log].
  rewrite !bind_emit. cbn [game frames next_id log].
  reflexivity.
Qed.

(** X5.  When the close request is already there at the first test, the
    loop body never runs: [RunGame] still loads the shader and the target,
    then closes the window, and the game object is untouched. *)
Theorem RunGame_closes_at_once (fuel : nat) (w : world) :
  frames w = [] ->
  RunGame ASSETS_PATH (S fuel) w =
  Some (tt, mk_world (game w) [] (next_id w + 1 + 2)
          (log w
           ++ [E_LoadShader None (TextFormat (ASSETS_PATH ++ "postprocessing.glsl") 330);
               E_LoadRenderTexture (x (window_size (game w))) (y (window_size (game w)));
               E_CloseWindow])).
Proof.
  intros Hnone. rewrite RunGame_run by (rewrite Hnone; cbn; lia).
  rewrite Hnone. reflexivity.
Qed.

(** ** Scopes *)

Lemma nesting_app (l1 l2 : list (@call F)) :
  forall inside : list scope,
    nesting inside (l1 ++ l2) =
    match nesting inside l1 with
    | Some inside' => nesting inside' l2
    | None => None
    end.
Proof.
  induction l1 as [|c rest IH]; intros inside; cbn [app nesting]; [reflexivity|].
  destruct (opens c), (closes c); try apply IH.
  destruct inside as [|top below]; [reflexivity|].
  destruct (scope_eqb s top); [apply IH | reflexivity].
Qed.

Lemma nesting_loop_calls (sh : Shader) (fb : RenderTexture2D) (fs : list frame_input) :
  forall (gm : s_game) (inside : list scope),
    nesting inside (loop_calls sh fb fs gm) = Some inside.
Proof.
  unfold loop_calls.
  induction fs as [|fr rest IH]; intros gm inside; cbn [games_rendered map concat].
  - reflexivity.
  - rewrite nesting_app.
    change (nesting inside (frame_calls sh fb (polled (key_down fr) (frame_time fr) gm)))
      with (Some inside).
    apply IH.
Qed.

(** X6.  The calls of a run are properly nested: every [EndTextureMode],
    [EndMode2D], [rlPopMatrix], [EndDrawing] and [EndShaderMode] closes the
    innermost scope open at that point, and no scope is left open when
    [RunGame] returns. *)
Theorem RunGame_calls_nested (fuel : nat) (w : world) :
  (List.length (frames w) < fuel)%nat ->
  exists (w' : world) (calls : list call),
    RunGame ASSETS_PATH fuel w = Some (tt, w') /\
    log w' = log w ++ calls /\
    nesting [] calls = Some [].
Proof.
  intros Hfuel. eexists. eexists.
  split; [apply RunGame_run, Hfuel|].
  split; [reflexivity|].
  rewrite nesting_app. cbn [nesting opens closes].
  rewrite nesting_app, nesting_loop_calls. reflexivity.
Qed.

Lemma drawn_inside_app (l1 l2 : list (@call F)) :
  forall inside inside' : list scope,
    nesting inside l1 = Some inside' ->
    drawn_inside inside (l1 ++ l2) = drawn_inside inside l1 ++ drawn_inside inside' l2.
Proof.
  induction l1 as [|c rest IH]; intros inside inside'; cbn [app nesting drawn_inside].
  - intros E. injection E as <-. reflexivity.
  - destruct (opens c) as [s|]; [apply IH|].
    destruct (closes c) as [s|].
    + destruct inside as [|top below]; [discriminate|].
      destruct (scope_eqb s top); [apply IH | discriminate].
    + intros E. destruct c; cbn [app]; try (f_equal); now apply IH.
Qed.

(** What one frame draws, and inside which scopes. *)
Lemma drawn_inside_loop_calls (sh : Shader) (fb : RenderTexture2D)
    (fs : list frame_input) :
  forall gm : s_game,
    drawn_inside [] (loop_calls sh fb fs gm) =
    flat_map
      (fun g1 : s_game =>
         [ (E_ClearBackground SKYBLUE, [S_Mode2D; S_TextureMode]);
           (E_RecursiveTreeDraw (fractal_tree_start_length g1)
                                (fractal_tree_start_length g1)
                                (fractal_tree_angle g1),
            [S_Matrix; S_Mode2D; S_TextureMode]);
           (E_ClearBackground WHITE, [S_Drawing]);
           (E_DrawTextureRec (texture fb)
              (mkRectangle (lit 0) (lit 0)
                 (lit (inject_Z (tex_width (texture fb))))
                 (lit (inject_Z (- tex_height (texture fb)))))
              (mkVec2 (lit 0) (lit 0)) WHITE,
            [S_ShaderMode; S_Drawing]) ])
      (games_rendered fs gm).
Proof.
  unfold loop_calls.
  induction fs as [|fr rest IH]; intros gm; cbn [games_rendered map concat flat_map].
  - reflexivity.
  - rewrite (drawn_inside_app _ _ [] []) by reflexivity.
    rewrite IH. reflexivity.
Qed.

(** X7.  What a run draws, call by call and with the scopes open at each:
    in every frame, first the sky-blue clear inside the camera mode inside
    the texture mode, then the tree inside push/pop inside the camera mode
    inside the texture mode, then the white clear inside [BeginDrawing], then
    the target's texture inside the shader mode inside [BeginDrawing]; and
    nothing else.  So the tree only ever goes to the off-screen target and
    the target's texture only ever to the screen, under the shader. *)
Theorem RunGame_draws_in_scope (fuel : nat) (w : world) :
  (List.length (frames w) < fuel)%nat ->
  exists (w' : world) (calls : list call),
    RunGame ASSETS_PATH fuel w = Some (tt, w') /\
    log w' = log w ++ calls /\
    drawn_inside [] calls =
      flat_map
        (fun gm : s_game =>
           [ (E_ClearBackground SKYBLUE, [S_Mode2D; S_TextureMode]);
             (E_RecursiveTreeDraw (fractal_tree_start_length gm)
                                  (fractal_tree_start_length gm)
                                  (fractal_tree_angle gm),
              [S_Matrix; S_Mode2D; S_TextureMode]);
             (E_ClearBackground WHITE, [S_Drawing]);
             (E_DrawTextureRec (texture (target_of w))
                (mkRectangle (lit 0) (lit 0)
                   (lit (inject_Z (x (window_size (game w)))))
                   (lit (inject_Z (- y (window_size (game w))))))
                (mkVec2 (lit 0) (lit 0)) WHITE,
              [S_ShaderMode; S_Drawing]) ])
        (games_rendered (frames w) (game w)).
Proof.
  intros Hfuel. eexists. eexists.
  split; [apply RunGame_run, Hfuel|].
  split; [reflexivity|].
  rewrite (drawn_inside_app _ _ [] []) by reflexivity.
  cbn [drawn_inside opens closes app].
  rewrite (drawn_inside_app _ _ [] []) by apply nesting_loop_calls.
  rewrite drawn_inside_loop_calls. cbn [drawn_inside opens closes].
  now rewrite app_nil_r.
Qed.

(** ** What the offset and the angle depend on *)






(** An idle poll adds 0.0f to both components of the offset and writes
    nothing else. *)
Lemma game_after_idle (fs : list (@frame_input F)) :
  Forall idle fs ->
  forall gm : s_game,
    fadd (x (offset (camera gm))) (lit 0) = x (offset (camera gm)) ->
    fadd (y (offset (camera gm))) (lit 0) = y (offset (camera gm)) ->
    game_after fs gm = gm.
Proof.
  induction 1 as [|fr rest Hfr _ IH]; intros gm Hx Hy; cbn [game_after];
    [reflexivity|].
  assert (E : polled (key_down fr) (frame_time fr) gm = gm).
  { unfold polled, move_delta, turned, Vector2Add. rewrite !Hfr.
    cbn [x y]. rewrite Hx, Hy.
    destruct gm as [ws t [[ox oy] tg rot zm] angle len]. reflexivity. }
  rewrite E. now apply IH.
Qed.

End MoreGameFacts.

(** ** Idle runs in binary32 *)

(** Adding 0.0f gives back every binary32 value but -0.0, which it turns
    into +0.0. *)
Lemma b32_add_zero (v : spec_float) :
  v <> S754_zero true -> fadd v (lit 0) = v.
Proof.
  intros Hv. destruct v as [[|]| | |]; try reflexivity. now contradiction Hv.
Qed.

(** X10.  In binary32, a run whose frames have no key held returns the game
    object exactly as it was, however long the frames last, provided neither
    component of the offset is -0.0. *)
Theorem RunGame_idle_keeps_game (ASSETS_PATH : string) (fuel : nat)
    (w : @world spec_float) :
  (List.length (frames w) < fuel)%nat ->
  Forall idle (frames w) ->
  x (offset (camera (game w))) <> S754_zero true ->
  y (offset (camera (game w))) <> S754_zero true ->
  exists w' : world,
    RunGame ASSETS_PATH fuel w = Some (tt, w') /\
    game w' = game w.
Proof.
  intros Hfuel Hidle Hx Hy. eexists. split; [apply RunGame_run, Hfuel|].
  cbn [game]. apply game_after_idle; [exact Hidle | |]; now apply b32_add_zero.
Qed.

(** The exception is real: one idle poll turns an offset of -0.0 into +0.0. *)
Example InputGame_idle_negative_zero :
  forall gm : @s_game spec_float,
    offset (camera gm) = mkVec2 (S754_zero true) (S754_zero true) ->
    offset (camera (polled (fun _ => false) (lit (1 # 60)) gm))
    = mkVec2 (S754_zero false) (S754_zero false).
Proof.
  intros gm Hoff. unfold polled; cbn [camera offset]. rewrite Hoff. reflexivity.
Qed.

(** ** Concrete runs of the further properties *)

Local Open Scope Q_scope.

Lemma RunGame_keeps_window_camera_and_length_witness :
  exists w' : @world Q,
    RunGame "assets/" 5 mixed_world = Some (tt, w') /\
    window_size (game w') = mkVec2 800%Z 450%Z /\
    zoom (camera (game w')) = 1 # 2 /\
    fractal_tree_start_length (game w') = 350.
Proof.
  destruct (RunGame_keeps_window_camera_and_length "assets/" 5 mixed_world)
    as (w' & Hrun & Hws & _ & _ & _ & Hz & Hlen); [cbn; lia|].
  exists w'. repeat split; assumption.
Defined.

Lemma StartGame_draws_with_fixed_length_and_zoom_witness :
  exists (w' : @world Q) (calls : list call),
    StartGame "assets/" 5 mixed_world = Some (tt, w') /\
    log w' = calls /\
    tree_draws calls =
      [ (350, 350, 30); (350, 350, 30);
        (350, 350, 30 + 10 * (1 # 4));
        (350, 350, 30 + 10 * (1 # 4) + (-10) * (1 # 8)) ].
Proof.
  destruct (StartGame_draws_with_fixed_length_and_zoom "assets/" 5 mixed_world)
    as (w' & calls & Hrun & Hlog & Htrees & _); [cbn; lia|].
  exists w', calls. split; [exact Hrun|]. split; [exact Hlog | exact Htrees].
Defined.

Lemma RunGame_closes_at_once_witness :
  RunGame "assets/" 1 closing_world =
  Some (tt, mk_world sample_game [] 4%Z
          [ E_LoadShader None (TextFormat "assets/postprocessing.glsl" 330);
            E_LoadRenderTexture 800 450;
            E_CloseWindow ]).
Proof.
  apply (RunGame_closes_at_once "assets/" 0 closing_world). reflexivity.
Defined.

Lemma RunGame_calls_nested_witness :
  exists (w' : @world Q) (calls : list call),
    RunGame "assets/" 5 mixed_world = Some (tt, w') /\
    log w' = calls /\
    nesting [] calls = Some [].
Proof.
  destruct (RunGame_calls_nested "assets/" 5 mixed_world)
    as (w' & calls & Hrun & Hlog & Hnest); [cbn; lia|].
  exists w', calls. split; [exact Hrun|]. split; [exact Hlog | exact Hnest].
Defined.

Lemma RunGame_draws_in_scope_witness :
  exists (w' : @world Q) (calls : list call),
    RunGame "assets/" 3 sample_world = Some (tt, w') /\
    log w' = calls /\
    map snd (drawn_inside [] calls) =
      [ [S_Mode2D; S_TextureMode]; [S_Matrix; S_Mode2D; S_TextureMode];
        [S_Drawing]; [S_ShaderMode; S_Drawing];
        [S_Mode2D; S_TextureMode]; [S_Matrix; S_Mode2D; S_TextureMode];
        [S_Drawing]; [S_ShaderMode; S_Drawing] ].
Proof.
  destruct (RunGame_draws_in_scope "assets/" 3 sample_world)
    as (w' & calls & Hrun & Hlog & Hdrawn); [cbn; lia|].
  exists w', calls. split; [exact Hrun|]. split; [exact Hlog|].
  rewrite Hdrawn. reflexivity.
Defined.



Lemma RunGame_idle_keeps_game_witness :
  exists w' : @world spec_float,
    RunGame "assets/" 4 idle_world = Some (tt, w') /\
    game w' = game idle_world.
Proof.
  apply (RunGame_idle_keeps_game "assets/" 4 idle_world).
  - cbn; lia.
  - repeat constructor.
  - discriminate.
  - discriminate.
Defined.
